(** * general-errors: GeneralError and ResultContainer

    A shallow embedding of [source/GeneralError.ts] and
    [source/ResultContainer.ts].

    TypeScript values are modelled as follows.
    - [string] is [String.string]; a string is truthy when it is not empty.
    - An optional argument or an optional property ([x?: T]) is an
      [option]; [None] is [undefined].
    - A union such as [string | GeneralError] is a sum.
    - [Map<string, string>] is a [gmap string string].
    - A plain object used as a dictionary ([Record<string, T>]) is the list
      of its own properties in the order [Object.entries] enumerates them;
      see [JsObject].
    - A [throw] is the [Throw] completion of [Completion]. *)

From Stdlib Require Import String Ascii List NArith ZArith DecimalString.
From Stdlib Require DecimalN DecimalPos Sorted.
From stdpp Require Import base option list strings gmap.

Local Open Scope string_scope.
Local Open Scope list_scope.

(** ** Strings *)

(** [Boolean(s)] for a string [s]: only the empty string is falsy. *)
Definition truthy (s : string) : bool :=
  match s with
  | EmptyString => false
  | String _ _ => true
  end.

(** [a || b] where [a] is a string and [b] an optional string. *)
Definition or_else (a : string) (b : option string) : option string :=
  if truthy a then Some a else b.

(** The line feed, ['\n']. *)
Definition LF : string := String (ascii_of_nat 10) EmptyString.

(** [Array.prototype.join] on an array of strings. *)
Fixpoint join (delimiter : string) (parts : list string) : string :=
  match parts with
  | [] => ""
  | [p] => p
  | p :: rest => p +:+ delimiter +:+ join delimiter rest
  end.

(** ** Plain objects used as dictionaries *)

Module JsObject.

(** The own enumerable string-keyed properties of an ordinary object, in
    the order of [Object.keys] and [Object.entries]: the keys that are
    array indices first, in ascending numeric order, then the other keys
    in the order they were created. The object is one that an object
    literal made: its prototype is [Object.prototype], whose accessor
    [__proto__] takes the assignments to that key. What an object
    inherits is not part of this model. *)
Definition t (V : Type) : Type := list (string * V).

(** A key is an array index when it is the canonical decimal numeral of
    an integer below [2^32 - 1]. *)
Definition array_index (k : string) : option N :=
  match NilEmpty.uint_of_string k with
  | Some d =>
      let n := N.of_uint d in
      if (NilEmpty.string_of_uint (N.to_uint n) =? k)%string
         && (n <? 4294967295)%N
      then Some n else None
  | None => None
  end.

(** [below n k]: the key [k] is an array index smaller than [n]. *)
Definition below (n : N) (k : string) : bool :=
  match array_index k with
  | Some m => (m <? n)%N
  | None => false
  end.

Section Operations.
Context {V : Type}.

(** [{}] *)
Definition empty : t V := [].

(** [Object.keys(o)] *)
Definition keys (o : t V) : list string := map fst o.

(** [Object.entries(o)] *)
Definition entries (o : t V) : list (string * V) := o.

(** [k in o], for own properties. *)
Fixpoint has (k : string) (o : t V) : bool :=
  match o with
  | [] => false
  | (k', _) :: o' => if (k' =? k)%string then true else has k o'
  end.

(** The value of the own property [k] of [o], if there is one. *)
Fixpoint get (k : string) (o : t V) : option V :=
  match o with
  | [] => None
  | (k', v') :: o' => if (k' =? k)%string then Some v' else get k o'
  end.

(** Assignment to an existing property: the value changes, the place
    in the enumeration does not. *)
Fixpoint update (k : string) (v : V) (o : t V) : t V :=
  match o with
  | [] => []
  | (k', v') :: o' =>
      if (k' =? k)%string then (k', v) :: o' else (k', v') :: update k v o'
  end.

(** A new array-index key [k] (of value [n]) goes before the first
    property that is a larger index or not an index at all. *)
Fixpoint insert_index (n : N) (k : string) (v : V) (o : t V) : t V :=
  match o with
  | [] => [(k, v)]
  | (k', v') :: o' =>
      if below n k' then (k', v') :: insert_index n k v o'
      else (k, v) :: o
  end.

(** [o[k] = v]: an own property takes the value; otherwise the key
    ["__proto__"] reaches the setter that the object inherits, which
    creates no property, and any other key creates one. *)
Definition set (k : string) (v : V) (o : t V) : t V :=
  if has k o then update k v o
  else if (k =? "__proto__")%string then o
  else match array_index k with
       | Some n => insert_index n k v o
       | None => o ++ [(k, v)]
       end.

End Operations.






End JsObject.

(** ** GeneralError.ts *)

Module GeneralError.

(** [GeneralErrorBag] *)
Record Bag : Type := mkBag {
  bag_message : string;
  bag_location : string;
  bag_source : string;
  bag_code : string;
}.

(** [Partial<GeneralErrorBag> & Pick<GeneralErrorBag, 'message'>], the
    constructor's argument. *)
Record PartialBag : Type := mkPartialBag {
  partial_message : string;
  partial_code : option string;
  partial_location : option string;
  partial_source : option string;
}.

(** The class [GeneralError]: four private fields read through getters. *)
Record t : Type := mk {
  code : string;
  message : string;
  location : string;
  source : string;
}.

Section Runtime.
(** The [stack] property of a freshly constructed [Error], which the
    engine provides or not. *)
Variable error_stack : option string.

(** [getLocation] *)
Definition getLocation : string :=
  match error_stack with
  | Some stack => if truthy stack then stack else ""
  | None => ""
  end.

(** [new GeneralError(data)] *)
Definition new (data : PartialBag) : t :=
  {| code := default "" (partial_code data);
     message := partial_message data;
     location := default getLocation (partial_location data);
     source := default "" (partial_source data) |}.

(** [GeneralError.toBag] *)
Definition toBag (data : t) : Bag :=
  {| bag_code := code data;
     bag_message := message data;
     bag_location := location data;
     bag_source := source data |}.

(** The spread [{ ...bag }] seen as a constructor argument. *)
Definition spread (bag : Bag) : PartialBag :=
  {| partial_message := bag_message bag;
     partial_code := Some (bag_code bag);
     partial_location := Some (bag_location bag);
     partial_source := Some (bag_source bag) |}.

(** [GeneralError.toString(data, delimiter = '\n')]. In the array
    branch [map] hands each element to the same function, which takes
    its second branch there. *)
Definition toString (data : t + list t) (delimiter : option string)
    : string :=
  let single (d : t) : string :=
    let code_ :=
      if truthy (code d) then "[" +:+ code d +:+ " " +:+ source d +:+ "] "
      else "" in
    let location_ :=
      if truthy (location d) then "[" +:+ location d +:+ "] " else "" in
    code_ +:+ location_ +:+ message d in
  match data with
  | inr array => join (default LF delimiter) (map single array)
  | inl d => single d
  end.

(** [GeneralError.translate] *)
Definition translate (data : t) (codeMap : gmap string string) : t :=
  let bag := spread (toBag data) in
  new {| partial_message := default (message data) (codeMap !! code data);
         partial_code := partial_code bag;
         partial_location := partial_location bag;
         partial_source := partial_source bag |}.

End Runtime.

End GeneralError.

(** ** ResultContainer.ts *)

(** [ResultContainer<T>]: a [FailureResult] ([success: false]) or a
    [SuccessResult<T>] ([success: true]). *)
Inductive ResultContainer (T : Type) : Type :=
  | FailureResult (errors : list GeneralError.t)
  | SuccessResult (data : T).

Arguments FailureResult {T} errors.
Arguments SuccessResult {T} data.

(** What a call completes with: a returned value or a thrown [Error]. *)
Record JsError : Type := mkError { error_message : string }.

Inductive Completion (T : Type) : Type :=
  | Return (value : T)
  | Throw (error : JsError).

Arguments Return {T} value.
Arguments Throw {T} error.

(** The second argument of [compose] and [composeAny]: a plain object or a
    [Map], the latter as the list of its entries in insertion order. *)
Inductive Keyed (V : Type) : Type :=
  | OfRecord (o : JsObject.t V)
  | OfMap (m : list (string * V)).

Arguments OfRecord {V} o.
Arguments OfMap {V} m.

Section ResultContainerTs.
Variable error_stack : option string.
Context {T : Type}.

(** [convertError] *)
Definition convertError (error : string + GeneralError.t)
    (source : option string) : GeneralError.t :=
  match error with
  | inl text =>
      GeneralError.new error_stack
        {| GeneralError.partial_message := text;
           GeneralError.partial_code := None;
           GeneralError.partial_location := None;
           GeneralError.partial_source := source |}
  | inr error =>
      let bag := GeneralError.spread (GeneralError.toBag error) in
      GeneralError.new error_stack
        {| GeneralError.partial_message := GeneralError.partial_message bag;
           GeneralError.partial_code := GeneralError.partial_code bag;
           GeneralError.partial_location :=
             GeneralError.partial_location bag;
           GeneralError.partial_source :=
             or_else (GeneralError.source error) source |}
  end.

(** [unwrap] *)
Definition unwrap (result : ResultContainer T) (source : option string)
    : Completion T :=
  match result with
  | SuccessResult data => Return data
  | FailureResult errors =>
      Throw (mkError
        (GeneralError.toString
           (inr (map (fun e => convertError (inr e) source) errors)) None))
  end.

(** [success] *)
Definition success (data : T) : ResultContainer T := SuccessResult data.

(** [failure]: a single error (a string or a [GeneralError]) or an array
    of them. *)
Definition failure
    (errors : (string + GeneralError.t) + list (string + GeneralError.t))
    (source : option string) : ResultContainer T :=
  match errors with
  | inl error => FailureResult [convertError error source]
  | inr errors => FailureResult (map (fun e => convertError e source) errors)
  end.

(** [wrap] *)
Definition wrap (data : option T)
    (errors : option (list (string + GeneralError.t)))
    (source : option string) : ResultContainer T :=
  match errors with
  | Some (e :: es) => failure (inr (e :: es)) source
  | _ =>
      match data with
      | None =>
          failure
            (inl (inr (GeneralError.new error_stack
               {| GeneralError.partial_message :=
                    "No value for data was provided, but no errors were either.";
                  GeneralError.partial_code := Some "UnknownError";
                  GeneralError.partial_location := None;
                  GeneralError.partial_source := source |})))
            None
      | Some data => success data
      end
  end.

End ResultContainerTs.

Arguments success {T} data.
Arguments failure error_stack {T} errors source.

Section Aggregation.
Variable error_stack : option string.
Context {T : Type}.

(** The body of the [forEach] callback of [collect] and [collectAny],
    on the two arrays [errors] and [data] it pushes to. *)
Definition collect_step (acc : list GeneralError.t * list T)
    (result : ResultContainer T) : list GeneralError.t * list T :=
  let '(errors, data) := acc in
  match result with
  | SuccessResult d => (errors, data ++ [d])
  | FailureResult es => (errors ++ es, data)
  end.

(** [collect] *)
Definition collect (results : list (ResultContainer T))
    (source : option string) : ResultContainer (list T) :=
  let '(errors, data) := fold_left collect_step results ([], []) in
  wrap error_stack (Some data) (Some (map inr errors)) source.

(** [collectAny] *)
Definition collectAny (results : list (ResultContainer T))
    (source : option string) : ResultContainer (list T) :=
  let '(errors, data) := fold_left collect_step results ([], []) in
  if (0 <? length data)%nat then success data
  else failure error_stack (inr (map inr errors)) source.

(** The entries the [for ... of] loop of [compose] and [composeAny]
    visits: [results.entries()] or [Object.entries(results)]. *)
Definition iterator (results : Keyed (ResultContainer T))
    : list (string * ResultContainer T) :=
  match results with
  | OfMap m => m
  | OfRecord o => JsObject.entries o
  end.

(** The body of that loop, on the object [result] and the array
    [errors]. *)
Definition compose_step (acc : JsObject.t T * list GeneralError.t)
    (entry : string * ResultContainer T)
    : JsObject.t T * list GeneralError.t :=
  let '(result, errors) := acc in
  let '(key, value) := entry in
  match value with
  | SuccessResult d => (JsObject.set key d result, errors)
  | FailureResult es => (result, errors ++ es)
  end.

(** [compose] *)
Definition compose (results : Keyed (ResultContainer T))
    (source : option string) : ResultContainer (JsObject.t T) :=
  let '(result, errors) :=
    fold_left compose_step (iterator results) (JsObject.empty, []) in
  wrap error_stack (Some result) (Some (map inr errors)) source.

(** [composeAny] *)
Definition composeAny (results : Keyed (ResultContainer T))
    (source : option string) : ResultContainer (JsObject.t T) :=
  let '(data, errors) :=
    fold_left compose_step (iterator results) (JsObject.empty, []) in
  if (0 <? length (JsObject.keys data))%nat then success data
  else failure error_stack (inr (map inr errors)) source.

End Aggregation.

(** ** error-factories.ts *)

(** [n.toString()] for a status, which is an unsigned short, and for a
    member of a numeric enum: the decimal numeral of a small non-negative
    integer. *)
Definition Number_toString (n : N) : string :=
  NilEmpty.string_of_uint (N.to_uint n).

(** A [GeneralError] given where the constructor expects its argument: the
    four properties are read through the getters. *)
Definition instance_data (error : GeneralError.t) : GeneralError.PartialBag :=
  {| GeneralError.partial_message := GeneralError.message error;
     GeneralError.partial_code := Some (GeneralError.code error);
     GeneralError.partial_location := Some (GeneralError.location error);
     GeneralError.partial_source := Some (GeneralError.source error) |}.

Module ErrorFactories.

(** What [fromResponse] reads of a [Response]; its [status] is an unsigned
    short. *)
Record Response : Type := mkResponse {
  statusText : string;
  status : N;
  url : string;
}.

(** What [fromNativeError] reads of an [Error]; [stack] is optional. *)
Record NativeError : Type := mkNativeError {
  name : string;
  message : string;
  stack : option string;
}.

(** The [unknown] argument of [fromNativeError]: an instance of [Error], or
    any other value, seen through the completion of its conversion to a
    string (a symbol, for one, cannot be converted: the conversion
    throws). *)
Inductive Unknown : Type :=
  | InstanceOfError (error : NativeError)
  | NotAnError (text : Completion string).

(** What [fromJsoncError] reads of a [ParseError]: [error], a member of the
    numeric enum [ParseErrorCode]. *)
Record ParseError : Type := mkParseError { error : N }.

(** What [fromZodIssue] reads of a [ZodIssue]; an element of [path] is a
    string or a number, of the type [number] that stands for the numbers
    of the engine. *)
Record ZodIssue (number : Type) : Type := mkZodIssue {
  issue_message : string;
  path : list (string + number);
  issue_code : string;
}.

Arguments mkZodIssue {number} issue_message path issue_code.
Arguments issue_message {number} _.
Arguments path {number} _.
Arguments issue_code {number} _.

(** The string [join] makes of an element of a path: the string itself,
    or what the engine renders the number as, [render]. *)
Definition path_element {number : Type} (render : number -> string)
    (element : string + number) : string :=
  match element with
  | inl key => key
  | inr index => render index
  end.

Section Factories.
Variable error_stack : option string.

(** [fromResponse] *)
Definition fromResponse (response : Response) (source : option string)
    : GeneralError.t :=
  GeneralError.new error_stack
    {| GeneralError.partial_message := statusText response;
       GeneralError.partial_code := Some (Number_toString (status response));
       GeneralError.partial_location := Some (url response);
       GeneralError.partial_source := source |}.

(** [fromNativeError] *)
Definition fromNativeError (error : Unknown) (source : option string)
    : Completion GeneralError.t :=
  match error with
  | InstanceOfError error =>
      Return (GeneralError.new error_stack
        {| GeneralError.partial_message := message error;
           GeneralError.partial_code := Some (name error);
           GeneralError.partial_location := stack error;
           GeneralError.partial_source := source |})
  | NotAnError text =>
      match text with
      | Return text =>
          Return (GeneralError.new error_stack
            {| GeneralError.partial_message := text;
               GeneralError.partial_code := None;
               GeneralError.partial_location := None;
               GeneralError.partial_source := source |})
      | Throw thrown => Throw thrown
      end
  end.

(** [fromString] *)
Definition fromString (message : string) (source : option string)
    : GeneralError.t :=
  GeneralError.new error_stack
    {| GeneralError.partial_message := message;
       GeneralError.partial_code := None;
       GeneralError.partial_location := None;
       GeneralError.partial_source := source |}.

(** [fromJsoncError] *)
Definition fromJsoncError (error_ : ParseError) (source : option string)
    : GeneralError.t :=
  GeneralError.new error_stack
    {| GeneralError.partial_message :=
         "This library does not support inline error message, they must be looked up using printParseErrorCode";
       GeneralError.partial_code := Some (Number_toString (error error_));
       GeneralError.partial_location := None;
       GeneralError.partial_source := source |}.

(** [fromZodIssue], with the engine's rendering of numbers, [render]. *)
Definition fromZodIssue {number : Type} (render : number -> string)
    (issue : ZodIssue number) (source : option string) : GeneralError.t :=
  GeneralError.new error_stack
    {| GeneralError.partial_message := issue_message issue;
       GeneralError.partial_code := Some (issue_code issue);
       GeneralError.partial_location :=
         Some (join "." (map (path_element render) (path issue)));
       GeneralError.partial_source := source |}.

End Factories.

End ErrorFactories.

(** The source supplied first, if it is a non-empty string, and the one
    supplied next otherwise. *)
Definition first_source (first next : option string) : option string :=
  match first with
  | Some s => or_else s next
  | None => next
  end.

(** ** Vocabulary of the specification *)

(** The discriminant [result.success]. *)
Definition is_success {T : Type} (result : ResultContainer T) : bool :=
  match result with
  | SuccessResult _ => true
  | FailureResult _ => false
  end.

(** The error sequence of an outcome; a success has none. *)
Definition errors_of {T : Type} (result : ResultContainer T)
    : list GeneralError.t :=
  match result with
  | FailureResult errors => errors
  | SuccessResult _ => []
  end.

(** The data of an outcome; a failure has none. *)
Definition data_of {T : Type} (result : ResultContainer T) : option T :=
  match result with
  | SuccessResult data => Some data
  | FailureResult _ => None
  end.

(** An outcome that respects the invariant of the specification: a failure
    of it carries at least one error. *)
Definition carries_error {T : Type} (result : ResultContainer T) : Prop :=
  is_success result = false -> errors_of result <> [].

(** The error sequences of the failing outcomes, concatenated in input
    order. *)
Definition all_errors {T : Type} (results : list (ResultContainer T))
    : list GeneralError.t :=
  concat (map errors_of results).

(** The data of the succeeding outcomes, in input order. *)
Definition successes {T : Type} (results : list (ResultContainer T))
    : list T :=
  omap data_of results.

(** The succeeding entries of a keyed collection with their data, in
    iteration order. *)
Definition keyed_successes {T : Type}
    (entries : list (string * ResultContainer T)) : list (string * T) :=
  omap (fun entry => pair (fst entry) <$> data_of (snd entry)) entries.

(** Source back-fill: a record without a source takes the source that is
    supplied, if any; every other field is kept. *)
Definition back_fill (source : option string) (error : GeneralError.t)
    : GeneralError.t :=
  if decide (GeneralError.source error = "")
  then {| GeneralError.code := GeneralError.code error;
          GeneralError.message := GeneralError.message error;
          GeneralError.location := GeneralError.location error;
          GeneralError.source := default "" source |}
  else error.

(** A record that names its source. *)
Definition sourced (error : GeneralError.t) : Prop :=
  GeneralError.source error <> "".

(** Single-record format, in the words of the specification:
    ["[{code} {source}] [{location}] {message}"], without the first
    bracket when the code is empty and without the second when the
    location is empty. *)
Definition format_spec (record : GeneralError.t) : string :=
  let code := GeneralError.code record in
  let source := GeneralError.source record in
  let location := GeneralError.location record in
  let message := GeneralError.message record in
  match decide (code = ""), decide (location = "") with
  | left _, left _ => message
  | left _, right _ => "[" +:+ location +:+ "] " +:+ message
  | right _, left _ => "[" +:+ code +:+ " " +:+ source +:+ "] " +:+ message
  | right _, right _ =>
      "[" +:+ code +:+ " " +:+ source +:+ "] [" +:+ location +:+ "] "
      +:+ message
  end.

(** [o[key] = value] for an entry [(key, value)]. *)
Definition assign {V : Type} (o : JsObject.t V) (entry : string * V)
    : JsObject.t V :=
  JsObject.set (fst entry) (snd entry) o.

(** The object built by assigning the entries one after the other to
    [{}]. *)
Definition assign_all {V : Type} (entries : list (string * V))
    : JsObject.t V :=
  fold_left assign entries JsObject.empty.

(** ** Sample values *)

(** The stack the engine reports in the examples. *)
Definition sample_stack : option string := Some "Error at <anonymous>".

Definition error_a : GeneralError.t := GeneralError.mk "" "a" "" "".
Definition error_b : GeneralError.t := GeneralError.mk "E_B" "b" "" "disk".
Definition error_c : GeneralError.t := GeneralError.mk "" "c" "line 3" "".

(** * Properties *)

(** ** Strings *)

Lemma truthy_false (s : string) : truthy s = false <-> s = "".
Proof. destruct s; simpl; split; congruence. Qed.

Lemma truthy_true (s : string) : truthy s = true <-> s <> "".
Proof. destruct s; simpl; split; congruence. Qed.

Lemma or_else_default (a : string) (b : option string) :
  default "" (or_else a b) = if decide (a = "") then default "" b else a.
Proof.
  unfold or_else.
  destruct (decide (a = "")) as [->|Hne]; [reflexivity|].
  now destruct a.
Qed.

(** ** Objects *)

Module JsObjectFacts.
Import JsObject.

Section Facts.
Context {V : Type}.
Implicit Types (k : string) (v : V) (o : JsObject.t V).







Lemma get_update_eq k v o : has k o = true -> get k (update k v o) = Some v.
Proof.
  induction o as [|[k' v'] o IH]; simpl; [discriminate|].
  destruct (k' =? k)%string eqn:E; simpl; rewrite E; auto.
Qed.

Lemma get_update_ne k k' v o : k <> k' -> get k' (update k v o) = get k' o.
Proof.
  intros Hne. induction o as [|[k0 v0] o IH]; simpl; [reflexivity|].
  destruct (String.eqb_spec k0 k) as [->|Hk]; simpl.
  - destruct (String.eqb_spec k k'); [contradiction | reflexivity].
  - now rewrite IH.
Qed.

Lemma get_insert_index n k v o k' :
  has k o = false ->
  get k' (insert_index n k v o) =
  if (k =? k')%string then Some v else get k' o.
Proof.
  induction o as [|[k0 v0] o IH]; simpl; [reflexivity|].
  destruct (String.eqb_spec k0 k) as [->|Hk]; [discriminate|].
  intros H.
  destruct (below n k0); [|reflexivity].
  simpl. rewrite (IH H).
  destruct (String.eqb_spec k0 k') as [->|]; [|reflexivity].
  destruct (String.eqb_spec k k') as [->|]; [contradiction | reflexivity].
Qed.

Lemma get_app_new k v o k' :
  has k o = false ->
  get k' (o ++ [(k, v)]) = if (k =? k')%string then Some v else get k' o.
Proof.
  induction o as [|[k0 v0] o IH]; simpl; [reflexivity|].
  destruct (String.eqb_spec k0 k) as [->|Hk]; [discriminate|].
  intros H. rewrite (IH H).
  destruct (String.eqb_spec k0 k') as [->|]; [|reflexivity].
  destruct (String.eqb_spec k k') as [->|]; [contradiction | reflexivity].
Qed.

(** *** Assignment keeps the own-property order *)










(** *** The keys that are not array indices *)




(** *** What an own-property order is *)




End Facts.
End JsObjectFacts.

Module AssignFacts.
Import JsObject JsObjectFacts.

Section Facts.
Context {V : Type}.
Implicit Types (k : string) (v : V) (o : JsObject.t V).

Lemma get_set k v o k' :
  get k' (set k v o) =
  if has k o || negb (k =? "__proto__")%string
  then if (k =? k')%string then Some v else get k' o
  else get k' o.
Proof.
  unfold set. destruct (has k o) eqn:Hhas; simpl.
  - destruct (String.eqb_spec k k') as [<-|Hne].
    + now apply get_update_eq.
    + now apply get_update_ne.
  - destruct (k =? "__proto__")%string; simpl; [reflexivity|].
    destruct (array_index k) as [n|].
    + now apply get_insert_index.
    + now apply get_app_new.
Qed.

Lemma get_set_new k v o :
  k <> "__proto__" -> get k (set k v o) = Some v.
Proof.
  intros Hk. rewrite get_set, String.eqb_refl.
  destruct (String.eqb_spec k "__proto__") as [->|_]; [contradiction|].
  now rewrite orb_true_r.
Qed.



Lemma set_not_empty k v o : k <> "__proto__" -> set k v o <> [].
Proof.
  intros Hk Hnil. pose proof (get_set_new k v o Hk) as Hget.
  now rewrite Hnil in Hget.
Qed.

Lemma set_stays_not_empty k v o : o <> [] -> set k v o <> [].
Proof.
  intros Ho. unfold set. destruct (has k o) eqn:Hhas.
  - destruct o as [|[k' v'] o]; [discriminate Hhas|].
    simpl. now destruct (k' =? k)%string.
  - destruct (k =? "__proto__")%string; [assumption|].
    destruct (array_index k) as [n|].
    + destruct o as [|[k' v'] o]; simpl; [discriminate|].
      now destruct (below n k').
    + now destruct o.
Qed.

Lemma fold_assign_not_empty (l : list (string * V)) o :
  o <> [] -> fold_left assign l o <> [].
Proof.
  revert o. induction l as [|e l IH]; simpl; [trivial|].
  intros o Ho. apply IH. now apply set_stays_not_empty.
Qed.

(** The object stays empty exactly when every key is ["__proto__"]. *)
Lemma fold_assign_empty_iff (l : list (string * V)) :
  fold_left assign l empty = [] <->
  Forall (fun entry => fst entry = "__proto__") l.
Proof.
  induction l as [|[k v] l IH]; simpl.
  - split; [constructor | reflexivity].
  - rewrite Forall_cons. simpl. unfold assign at 2. simpl.
    destruct (String.eqb_spec k "__proto__") as [->|Hk].
    + change (set "__proto__" v empty) with (@empty V). rewrite IH. tauto.
    + split; [|tauto]. intros Hnil.
      now apply fold_assign_not_empty in Hnil; [|apply set_not_empty].
Qed.










End Facts.
End AssignFacts.

(** ** Error conversion *)

Section ConvertError.
Variable error_stack : option string.

Lemma convertError_record (e : GeneralError.t) (source : option string) :
  convertError error_stack (inr e) source = back_fill source e.
Proof.
  unfold convertError, back_fill, GeneralError.new. simpl.
  rewrite or_else_default.
  destruct e as [c m l s]; simpl.
  destruct (decide (s = "")); reflexivity.
Qed.

Lemma convertError_string (text : string) (source : option string) :
  convertError error_stack (inl text) source =
  {| GeneralError.code := "";
     GeneralError.message := text;
     GeneralError.location := GeneralError.getLocation error_stack;
     GeneralError.source := default "" source |}.
Proof. reflexivity. Qed.

Lemma convertError_records (es : list GeneralError.t) source :
  map (fun e => convertError error_stack e source) (map inr es) =
  map (back_fill source) es.
Proof.
  rewrite map_map. apply map_ext. intros e. apply convertError_record.
Qed.

End ConvertError.

Lemma back_fill_fields (source : option string) (e : GeneralError.t) :
  GeneralError.code (back_fill source e) = GeneralError.code e /\
  GeneralError.message (back_fill source e) = GeneralError.message e /\
  GeneralError.location (back_fill source e) = GeneralError.location e /\
  GeneralError.source (back_fill source e) =
    if decide (GeneralError.source e = "") then default "" source
    else GeneralError.source e.
Proof.
  unfold back_fill. destruct (decide _); simpl; auto.
Qed.

Lemma back_fill_absent (e : GeneralError.t) : back_fill None e = e.
Proof.
  unfold back_fill. destruct e as [c m l s]; simpl.
  destruct (decide _) as [->|]; reflexivity.
Qed.

Lemma map_back_fill_absent (es : list GeneralError.t) :
  map (back_fill None) es = es.
Proof.
  induction es as [|e es IH]; simpl; [reflexivity|].
  now rewrite back_fill_absent, IH.
Qed.

Lemma back_fill_sourced (s : string) (e : GeneralError.t) :
  s <> "" -> GeneralError.source (back_fill (Some s) e) <> "".
Proof.
  intros Hs. unfold back_fill. destruct (decide _); simpl; assumption.
Qed.

(** ** The accumulation loops *)

Section Loops.
Context {T : Type}.
Implicit Types (results : list (ResultContainer T))
  (entries : list (string * ResultContainer T)).

Lemma all_errors_cons (r : ResultContainer T) results :
  all_errors (r :: results) = errors_of r ++ all_errors results.
Proof. reflexivity. Qed.

Lemma collect_loop results errors data :
  fold_left collect_step results (errors, data) =
  (errors ++ all_errors results, data ++ successes results).
Proof.
  revert errors data.
  induction results as [|r results IH]; intros errors data; simpl.
  - unfold all_errors. simpl. now rewrite !app_nil_r.
  - destruct r as [es|d]; rewrite IH, all_errors_cons; simpl.
    + now rewrite <- app_assoc.
    + now rewrite <- app_assoc.
Qed.

Lemma compose_loop entries (o : JsObject.t T) errors :
  fold_left compose_step entries (o, errors) =
  (fold_left assign (keyed_successes entries) o,
   errors ++ all_errors (map snd entries)).
Proof.
  revert o errors.
  induction entries as [|[k r] entries IH]; intros o errors; simpl.
  - unfold all_errors. simpl. now rewrite app_nil_r.
  - destruct r as [es|d]; rewrite IH, all_errors_cons; simpl.
    + now rewrite <- app_assoc.
    + reflexivity.
Qed.

Lemma all_errors_nil results :
  all_errors results = [] <-> Forall (fun r => errors_of r = []) results.
Proof.
  induction results as [|r results IH].
  - split; [constructor | reflexivity].
  - rewrite all_errors_cons, Forall_cons, <- IH.
    split; [apply app_eq_nil | intros [-> ->]; reflexivity].
Qed.

Lemma all_errors_not_nil results :
  Exists (fun r => errors_of r <> []) results -> all_errors results <> [].
Proof.
  intros Hex Hnil. apply all_errors_nil in Hnil.
  apply Exists_exists in Hex as (r & Hin & Hr).
  rewrite Forall_forall in Hnil. exact (Hr (Hnil r Hin)).
Qed.

Lemma successes_nil results :
  successes results = [] <-> Forall (fun r => is_success r = false) results.
Proof.
  induction results as [|r results IH].
  - split; [constructor | reflexivity].
  - rewrite Forall_cons, <- IH. unfold successes. simpl.
    destruct r as [es|d]; simpl; [tauto|].
    split; [discriminate | intros [? _]; discriminate].
Qed.

Lemma successes_not_nil results :
  Exists (fun r => is_success r = true) results -> successes results <> [].
Proof.
  intros Hex Hnil. apply successes_nil in Hnil.
  apply Exists_exists in Hex as (r & Hin & Hr).
  rewrite Forall_forall in Hnil. specialize (Hnil r Hin). congruence.
Qed.

Lemma successes_all results :
  Forall (fun r => is_success r = true) results ->
  map SuccessResult (successes results) = results.
Proof.
  induction 1 as [|r results Hr _ IH]; [reflexivity|].
  destruct r as [es|d]; [discriminate Hr|].
  unfold successes in *. simpl. f_equal. exact IH.
Qed.




End Loops.

(** ** What each combinator returns *)

Section WrapRecords.
Variable error_stack : option string.
Context {A : Type}.
Implicit Types (source : option string).

Lemma failure_records (errors : list GeneralError.t) source :
  failure error_stack (T:=A) (inr (map inr errors)) source =
  FailureResult (map (back_fill source) errors).
Proof. unfold failure. now rewrite convertError_records. Qed.

Lemma wrap_records (data : A) (errors : list GeneralError.t) source :
  wrap error_stack (Some data) (Some (map inr errors)) source =
  match errors with
  | [] => SuccessResult data
  | _ :: _ => FailureResult (map (back_fill source) errors)
  end.
Proof.
  destruct errors as [|e errors]; [reflexivity|].
  change (map inr (e :: errors)) with (inr (A:=string) e :: map inr errors).
  unfold wrap.
  change (inr (A:=string) e :: map inr errors) with (map (inr (A:=string)) (e :: errors)).
  apply failure_records.
Qed.

End WrapRecords.

Section Returns.
Variable error_stack : option string.
Context {T : Type}.
Implicit Types (results : list (ResultContainer T))
  (keyed : Keyed (ResultContainer T)) (source : option string).

Lemma collect_returns results source :
  collect error_stack results source =
  match all_errors results with
  | [] => SuccessResult (successes results)
  | _ :: _ => FailureResult (map (back_fill source) (all_errors results))
  end.
Proof.
  unfold collect. rewrite collect_loop. cbn [app]. apply wrap_records.
Qed.

Lemma collectAny_returns results source :
  collectAny error_stack results source =
  match successes results with
  | [] => FailureResult (map (back_fill source) (all_errors results))
  | _ :: _ => SuccessResult (successes results)
  end.
Proof.
  unfold collectAny. rewrite collect_loop. cbn [app].
  destruct (successes results); [apply failure_records | reflexivity].
Qed.


Lemma composeAny_returns keyed source :
  composeAny error_stack keyed source =
  match assign_all (keyed_successes (iterator keyed)) with
  | [] =>
      FailureResult
        (map (back_fill source) (all_errors (map snd (iterator keyed))))
  | _ :: _ => SuccessResult (assign_all (keyed_successes (iterator keyed)))
  end.
Proof.
  unfold composeAny. rewrite compose_loop. cbn [app].
  fold (assign_all (keyed_successes (iterator keyed))).
  unfold JsObject.keys. rewrite length_map.
  destruct (assign_all (keyed_successes (iterator keyed)));
    [apply failure_records | reflexivity].
Qed.

(** [composeAny] finds no data exactly when every succeeding entry is
    under the key ["__proto__"]. *)
Lemma composed_empty_iff keyed :
  assign_all (keyed_successes (iterator keyed)) = [] <->
  Forall (fun entry => is_success (snd entry) = false
                       \/ fst entry = "__proto__") (iterator keyed).
Proof.
  unfold assign_all. rewrite AssignFacts.fold_assign_empty_iff.
  induction (iterator keyed) as [|[k r] entries IH].
  - split; constructor.
  - unfold keyed_successes in *. rewrite Forall_cons. simpl.
    destruct r as [es|d]; simpl.
    + rewrite IH. intuition.
    + rewrite Forall_cons, IH. simpl. intuition discriminate.
Qed.

End Returns.

(** ** The examples of the specification *)

Example collect_example :
  map GeneralError.message
    (errors_of
       (collect sample_stack
          [SuccessResult 1%Z;
           failure sample_stack (inr [inl "a"]) None;
           SuccessResult 2%Z;
           failure sample_stack (inr [inl "b"; inl "c"]) None] None))
  = ["a"; "b"; "c"].
Proof. reflexivity. Qed.

Example collectAny_example :
  collectAny sample_stack
    [failure sample_stack (inr [inl "x"]) None;
     SuccessResult 5%Z;
     failure sample_stack (inr [inl "y"]) None] None
  = SuccessResult [5%Z].
Proof. reflexivity. Qed.

Example compose_example :
  compose sample_stack
    (OfRecord [("a", SuccessResult 1%Z); ("b", SuccessResult 2%Z)]) None
  = SuccessResult [("a", 1%Z); ("b", 2%Z)].
Proof. reflexivity. Qed.

Example composeAny_example :
  composeAny sample_stack
    (OfRecord [("a", failure sample_stack (inr [inl "e"]) None);
               ("b", SuccessResult 2%Z)]) None
  = SuccessResult [("b", 2%Z)].
Proof. reflexivity. Qed.

Example toString_example :
  GeneralError.toString (inr [error_a; error_b; error_c]) None
  = "a" +:+ LF +:+ "[E_B disk] b" +:+ LF +:+ "[line 3] c".
Proof. reflexivity. Qed.

Example array_index_example :
  map JsObject.array_index ["0"; "7"; "4294967294"; "4294967295"; "07"; "b"; ""]
  = [Some 0%N; Some 7%N; Some 4294967294%N; None; None; None; None].
Proof. vm_compute. reflexivity. Qed.

Example assign_example :
  assign_all [("b", 1%Z); ("10", 2%Z); ("a", 3%Z); ("9", 4%Z); ("b", 5%Z)]
  = [("9", 4%Z); ("10", 2%Z); ("b", 5%Z); ("a", 3%Z)].
Proof. vm_compute. reflexivity. Qed.

(** * The claims *)

(** ** Non-empty failures *)

Section NonEmptyFailures.
Variable error_stack : option string.
Context {T : Type}.

Lemma wrap_failure_not_empty (data : option T) errors source es :
  wrap error_stack data errors source = FailureResult es -> 1 <= length es.
Proof.
  unfold wrap, failure, success.
  destruct errors as [[|e errors]|]; [destruct data| |destruct data];
    intros H; inversion H; simpl; lia.
Qed.

Lemma all_errors_carried (results : list (ResultContainer T)) :
  results <> [] ->
  Forall carries_error results ->
  Forall (fun r => is_success r = false) results ->
  all_errors results <> [].
Proof.
  intros Hne Hinv Hfail. destruct results as [|r results]; [contradiction|].
  apply Forall_cons in Hinv as [Hr _]. apply Forall_cons in Hfail as [Hf _].
  rewrite all_errors_cons. intros Hnil. apply app_eq_nil in Hnil as [Hnil _].
  exact (Hr Hf Hnil).
Qed.

End NonEmptyFailures.

(** C1, as stated, fails: [failure] given an empty array of errors, and
    [collectAny] and [composeAny] given an empty collection, return a
    failure without any error; so does [composeAny] given successes under
    the key ["__proto__"] only, which leave its object empty. *)
Lemma empty_failure_counterexample :
  failure sample_stack (T:=Z) (inr []) (Some "api") = FailureResult []
  /\ collectAny sample_stack (T:=Z) [] (Some "api") = FailureResult []
  /\ composeAny sample_stack (T:=Z) (OfRecord []) (Some "api")
     = FailureResult []
  /\ length (errors_of (failure sample_stack (T:=Z) (inr []) (Some "api")))
     = 0
  /\ composeAny sample_stack (OfMap [("__proto__", SuccessResult 1%Z)])
       (Some "api")
     = FailureResult [].
Proof. repeat split. Qed.

(** C1, amended: a failure returned by [wrap], [collect] or [compose]
    carries at least one error; [failure] returns as many errors as it is
    given (one for a single error, none for an empty array); a failure
    returned by [collectAny] carries at least one error when the
    collection is not empty and each failure in it carries one; a failure
    returned by [composeAny] carries at least one error when some entry
    is a failure and each failure carries one, as is the case when the
    collection is not empty, no key is ["__proto__"] and each failure
    carries one; given an empty collection, [collectAny] and [composeAny]
    return a failure without errors. *)
Theorem failure_errors_length (error_stack : option string) (T : Type) :
  (forall (data : option T) errors source es,
      wrap error_stack data errors source = FailureResult es ->
      1 <= length es)
  /\ (forall (results : list (ResultContainer T)) source es,
      collect error_stack results source = FailureResult es ->
      1 <= length es)
  /\ (forall (keyed : Keyed (ResultContainer T)) source es,
      compose error_stack keyed source = FailureResult es ->
      1 <= length es)
  /\ (forall error source,
      exists e, failure error_stack (T:=T) (inl error) source
                = FailureResult [e])
  /\ (forall errors source,
      exists es, failure error_stack (T:=T) (inr errors) source
                 = FailureResult es
                 /\ length es = length errors)
  /\ (forall (results : list (ResultContainer T)) source es,
      results <> [] ->
      Forall carries_error results ->
      collectAny error_stack results source = FailureResult es ->
      1 <= length es)
  /\ (forall (keyed : Keyed (ResultContainer T)) source es,
      Exists (fun entry => is_success (snd entry) = false)
        (iterator keyed) ->
      Forall carries_error (map snd (iterator keyed)) ->
      composeAny error_stack keyed source = FailureResult es ->
      1 <= length es)
  /\ (forall (keyed : Keyed (ResultContainer T)) source es,
      iterator keyed <> [] ->
      "__proto__" ∉ map fst (iterator keyed) ->
      Forall carries_error (map snd (iterator keyed)) ->
      composeAny error_stack keyed source = FailureResult es ->
      1 <= length es)
  /\ (forall source,
      collectAny error_stack (T:=T) [] source = FailureResult [])
  /\ (forall (keyed : Keyed (ResultContainer T)) source,
      iterator keyed = [] ->
      composeAny error_stack keyed source = FailureResult []).
Proof.
  assert (Hsome : forall (keyed : Keyed (ResultContainer T)) source es,
             Exists (fun entry => is_success (snd entry) = false)
               (iterator keyed) ->
             Forall carries_error (map snd (iterator keyed)) ->
             composeAny error_stack keyed source = FailureResult es ->
             1 <= length es).
  { intros keyed source es Hex Hinv. rewrite composeAny_returns.
    destruct (assign_all _); [|discriminate].
    intros [= <-]. rewrite length_map.
    assert (Hall : all_errors (map snd (iterator keyed)) <> []).
    { apply all_errors_not_nil.
      apply Exists_exists in Hex as ([k r] & Hin & Hfail).
      apply Exists_exists. exists r. split.
      - apply list_elem_of_fmap. now exists (k, r).
      - rewrite Forall_forall in Hinv. apply Hinv; [|exact Hfail].
        apply list_elem_of_fmap. now exists (k, r). }
    destruct (all_errors _); [contradiction | simpl; lia]. }
  repeat apply conj.
  - apply wrap_failure_not_empty.
  - intros results source es. unfold collect.
    destruct (fold_left _ _ _) as [errors data].
    apply wrap_failure_not_empty.
  - intros keyed source es. unfold compose.
    destruct (fold_left _ _ _) as [result errors].
    apply wrap_failure_not_empty.
  - intros error source. eexists. reflexivity.
  - intros errors source. eexists. split; [reflexivity|].
    now rewrite length_map.
  - intros results source es Hne Hinv. rewrite collectAny_returns.
    destruct (successes results) eqn:E; [|discriminate].
    intros [= <-]. rewrite length_map.
    apply successes_nil in E.
    pose proof (all_errors_carried results Hne Hinv E) as Hall.
    destruct (all_errors results); [contradiction | simpl; lia].
  - exact Hsome.
  - intros keyed source es Hne Hproto Hinv Hrun.
    apply (Hsome keyed source es); [|assumption..].
    rewrite composeAny_returns in Hrun.
    destruct (assign_all _) eqn:E in Hrun; [|discriminate].
    apply composed_empty_iff in E.
    destruct (iterator keyed) as [|[k r] entries]; [contradiction|].
    apply Exists_cons_hd. apply Forall_cons in E as [[Hr|Hk] _];
      [exact Hr|].
    simpl in Hk. subst k. exfalso. apply Hproto. simpl. now left.
  - reflexivity.
  - intros keyed source Hnil. unfold composeAny. now rewrite Hnil.
Qed.

Lemma failure_errors_length_witness :
  [FailureResult (T:=Z) [error_a]; FailureResult [error_b; error_c]] <> []
  /\ Forall carries_error
       [FailureResult (T:=Z) [error_a]; FailureResult [error_b; error_c]]
  /\ collectAny sample_stack
       [FailureResult (T:=Z) [error_a]; FailureResult [error_b; error_c]]
       (Some "api")
     = FailureResult
         [GeneralError.mk "" "a" "" "api"; error_b;
          GeneralError.mk "" "c" "line 3" "api"]
  /\ 1 <= length
            [GeneralError.mk "" "a" "" "api"; error_b;
             GeneralError.mk "" "c" "line 3" "api"].
Proof.
  assert (Hne : [FailureResult (T:=Z) [error_a];
                 FailureResult [error_b; error_c]] <> []) by discriminate.
  assert (Hinv : Forall carries_error
                   [FailureResult (T:=Z) [error_a];
                    FailureResult [error_b; error_c]]).
  { repeat constructor; intros _; discriminate. }
  assert (Hrun : collectAny sample_stack
                   [FailureResult (T:=Z) [error_a];
                    FailureResult [error_b; error_c]] (Some "api")
                 = FailureResult
                     [GeneralError.mk "" "a" "" "api"; error_b;
                      GeneralError.mk "" "c" "line 3" "api"])
    by reflexivity.
  repeat split; try assumption.
  exact (proj1 (proj2 (proj2 (proj2 (proj2 (proj2
           (failure_errors_length sample_stack Z))))))
           _ _ _ Hne Hinv Hrun).
Defined.

(** ** [collect] *)

(** C2 on a failure without errors, as [failure] returns for an empty
    array: the sequence contains a failure, and yet [collect] returns a
    success, against the claim and against the description of [collect]
    in its source ("If any ResultContainers are failures, the result will
    be a failure too"). *)
Lemma collect_empty_failure :
  Exists (fun r => is_success r = false)
    [failure sample_stack (T:=Z) (inr []) None]
  /\ collect sample_stack [failure sample_stack (T:=Z) (inr []) None] None
     = SuccessResult [].
Proof. split; [now constructor | reflexivity]. Qed.

(** X1: for every sequence of outcomes in which at least one failure
    carries an error, [collect] returns a failure whose errors are the
    concatenation, in input order, of the failing outcomes' errors, each
    record equal to the original but for source back-fill, and the data
    of the successes is discarded; for every sequence of successes it
    returns a success with all the data in input order. *)
Theorem collect_all_or_nothing (error_stack : option string) (T : Type)
    (results : list (ResultContainer T)) (source : option string) :
  (Exists (fun r => errors_of r <> []) results ->
   collect error_stack results source
   = FailureResult (map (back_fill source) (all_errors results)))
  /\ (Forall (fun r => is_success r = true) results ->
      collect error_stack results source = SuccessResult (successes results)
      /\ map SuccessResult (successes results) = results).
Proof.
  rewrite collect_returns. split.
  - intros Hex. apply all_errors_not_nil in Hex.
    destruct (all_errors results); [contradiction | reflexivity].
  - intros Hall. split; [|now apply successes_all].
    assert (Hnil : all_errors results = []).
    { apply all_errors_nil. eapply Forall_impl; [exact Hall|].
      intros [es|d]; [discriminate | reflexivity]. }
    now rewrite Hnil.
Qed.

Lemma collect_all_or_nothing_witness :
  Exists (fun r => errors_of r <> [])
    [SuccessResult 1%Z; FailureResult [error_a]; SuccessResult 2%Z;
     FailureResult [error_b; error_c]]
  /\ collect sample_stack
       [SuccessResult 1%Z; FailureResult [error_a]; SuccessResult 2%Z;
        FailureResult [error_b; error_c]] None
     = FailureResult [error_a; error_b; error_c].
Proof.
  assert (Hex : Exists (fun r => errors_of r <> [])
                  [SuccessResult 1%Z; FailureResult [error_a];
                   SuccessResult 2%Z; FailureResult [error_b; error_c]]).
  { apply Exists_cons_tl, Exists_cons_hd. discriminate. }
  split; [exact Hex|].
  exact (proj1 (collect_all_or_nothing sample_stack Z _ None) Hex).
Defined.

(** C3: [collect] of an empty sequence is a success with an empty sequence
    as data; it is what [wrap] returns for the present value [[]] and no
    error, whereas for absent data [wrap] returns a failure. *)
Theorem collect_empty (error_stack : option string) (T : Type)
    (source : option string) :
  collect error_stack (T:=T) [] source = SuccessResult []
  /\ collect error_stack (T:=T) [] source
     = wrap error_stack (Some []) (Some []) source
  /\ is_success (wrap error_stack (T:=list T) None (Some []) source) = false.
Proof. repeat split. Qed.

(** ** [collectAny] *)

(** C4: for every sequence with at least one success, [collectAny] returns
    a success whose data is the data of the succeeding outcomes in input
    order; for every sequence without a success it returns the failure
    made, with the source argument, of the concatenation of the inputs'
    errors in input order: the very records when no source is supplied,
    and otherwise the records with their empty sources back-filled. *)
Theorem collectAny_best_effort (error_stack : option string) (T : Type)
    (results : list (ResultContainer T)) (source : option string) :
  (Exists (fun r => is_success r = true) results ->
   collectAny error_stack results source = SuccessResult (successes results))
  /\ (Forall (fun r => is_success r = false) results ->
      collectAny error_stack results source
      = failure error_stack (inr (map inr (all_errors results))) source
      /\ collectAny error_stack results source
         = FailureResult (map (back_fill source) (all_errors results))
      /\ collectAny error_stack results None
         = FailureResult (all_errors results)).
Proof.
  split.
  - intros Hex. apply successes_not_nil in Hex. rewrite collectAny_returns.
    destruct (successes results); [contradiction | reflexivity].
  - intros Hall. apply successes_nil in Hall.
    rewrite failure_records, !collectAny_returns, Hall.
    now rewrite map_back_fill_absent.
Qed.

Lemma collectAny_best_effort_witness :
  Exists (fun r => is_success r = true)
    [FailureResult [error_a]; SuccessResult 5%Z; FailureResult [error_c]]
  /\ collectAny sample_stack
       [FailureResult [error_a]; SuccessResult 5%Z; FailureResult [error_c]]
       None
     = SuccessResult [5%Z].
Proof.
  assert (Hex : Exists (fun r => is_success r = true)
                  [FailureResult [error_a]; SuccessResult 5%Z;
                   FailureResult [error_c]]).
  { apply Exists_cons_tl, Exists_cons_hd. reflexivity. }
  split; [exact Hex|].
  exact (proj1 (collectAny_best_effort sample_stack Z _ None) Hex).
Defined.

(** ** [compose] *)

Section ComposedObject.
Context {T : Type}.
Implicit Types (entries : list (string * ResultContainer T)).





End ComposedObject.




(** ** [wrap] *)

(** C6: [wrap(data, errors, source)] returns [failure(errors, source)]
    whenever [errors] is not empty; otherwise, when [data] is [undefined],
    a failure with exactly one record, whose message is "No value for data
    was provided, but no errors were either." and whose code is
    "UnknownError"; otherwise the success carrying [data]. In particular
    [wrap([], [])] is a success with an empty sequence. *)
Theorem wrap_cases (error_stack : option string) (T : Type)
    (data : option T) (errors : option (list (string + GeneralError.t)))
    (source : option string) :
  (forall es, errors = Some es -> es <> [] ->
     wrap error_stack data errors source
     = failure error_stack (inr es) source)
  /\ (errors = None \/ errors = Some [] ->
      data = None ->
      exists record,
        wrap error_stack data errors source = FailureResult [record]
        /\ GeneralError.message record
           = "No value for data was provided, but no errors were either."
        /\ GeneralError.code record = "UnknownError"
        /\ GeneralError.source record = default "" source)
  /\ (errors = None \/ errors = Some [] ->
      forall d, data = Some d ->
      wrap error_stack data errors source = SuccessResult d)
  /\ wrap error_stack (T:=list T) (Some []) (Some []) None = SuccessResult [].
Proof.
  repeat apply conj.
  - intros es -> Hne. destruct es; [contradiction | reflexivity].
  - intros [-> | ->] ->; eexists; (split; [reflexivity|]); simpl;
      rewrite or_else_default; destruct source as [s|]; simpl;
      repeat split; try (destruct (decide _) as [->|]; reflexivity).
  - intros [-> | ->] d ->; reflexivity.
  - reflexivity.
Qed.

Lemma wrap_cases_witness :
  Some [inl "a"; inr error_b] = Some [inl "a"; inr error_b]
  /\ [inl "a"; inr error_b] <> []
  /\ wrap sample_stack (Some 7%Z) (Some [inl "a"; inr error_b]) (Some "api")
     = FailureResult
         [GeneralError.mk "" "a" "Error at <anonymous>" "api"; error_b].
Proof.
  assert (Hne : [inl (B:=GeneralError.t) "a"; inr error_b] <> [])
    by discriminate.
  split; [reflexivity|]. split; [exact Hne|].
  exact (proj1 (wrap_cases sample_stack Z (Some 7%Z)
                  (Some [inl "a"; inr error_b]) (Some "api"))
           _ eq_refl Hne).
Defined.

(** ** [unwrap] *)

(** C7: [unwrap] of a success returns its data and does nothing else;
    [unwrap] of a failure throws an error whose message is the rendering
    by [GeneralError.toString] of the contained records, each with its
    empty source back-filled by the source argument, joined by a line
    feed. *)
Theorem unwrap_returns_or_throws (error_stack : option string) (T : Type)
    (source : option string) :
  (forall data : T,
     unwrap error_stack (SuccessResult data) source = Return data)
  /\ (forall errors,
        unwrap error_stack (T:=T) (FailureResult errors) source
        = Throw (mkError
            (GeneralError.toString
               (inr (map (back_fill source) errors)) None))
        /\ GeneralError.toString (inr (map (back_fill source) errors)) None
           = join LF
               (map (fun record => GeneralError.toString (inl record) None)
                    (map (back_fill source) errors)))
  /\ (forall errors,
        unwrap error_stack (T:=T) (FailureResult errors) None
        = Throw (mkError (GeneralError.toString (inr errors) None))).
Proof.
  repeat apply conj.
  - reflexivity.
  - intros errors. split; [|reflexivity].
    unfold unwrap. do 4 f_equal. apply map_ext. intros e.
    apply convertError_record.
  - intros errors. unfold unwrap. do 4 f_equal.
    rewrite <- (map_back_fill_absent errors) at 2.
    apply map_ext. intros e. apply convertError_record.
Qed.

(** ** [GeneralError.toString] *)

Lemma append_assoc (a b c : string) : (a +:+ b) +:+ c = a +:+ (b +:+ c).
Proof.
  induction a as [|x a IH]; [reflexivity|].
  change (String x ((a +:+ b) +:+ c) = String x (a +:+ (b +:+ c))).
  now rewrite IH.
Qed.

(** C8: for every record, [GeneralError.toString] renders
    "[{code} {source}] [{location}] {message}", without the
    "[{code} {source}] " segment exactly when the code is empty and without
    the "[{location}] " segment exactly when the location is empty; for a
    sequence of records it renders each one so and joins them with the
    delimiter, a line feed by default. *)
Theorem toString_format (record : GeneralError.t)
    (records : list GeneralError.t) (delimiter : option string) :
  GeneralError.toString (inl record) delimiter = format_spec record
  /\ GeneralError.toString (inr records) delimiter
     = join (default LF delimiter) (map format_spec records)
  /\ GeneralError.toString (inr records) None
     = join LF (map format_spec records).
Proof.
  assert (Hsingle : forall r d,
             GeneralError.toString (inl r) d = format_spec r).
  { intros [c m l s] d. unfold GeneralError.toString, format_spec. simpl.
    destruct (decide (c = "")) as [->|Hc], (decide (l = "")) as [->|Hl];
      simpl.
    - reflexivity.
    - apply truthy_true in Hl. rewrite Hl.
      rewrite !append_assoc. reflexivity.
    - apply truthy_true in Hc. rewrite Hc.
      rewrite !append_assoc. reflexivity.
    - apply truthy_true in Hc. apply truthy_true in Hl. rewrite Hc, Hl.
      rewrite !append_assoc. reflexivity. }
  repeat apply conj.
  - apply Hsingle.
  - unfold GeneralError.toString at 1. f_equal. apply map_ext.
    intros r. apply (Hsingle r None).
  - unfold GeneralError.toString at 1. f_equal. apply map_ext.
    intros r. apply (Hsingle r None).
Qed.

(** ** [GeneralError.translate] *)

(** C9: for every record and every [codeMap], [translate] returns a record
    whose message is [codeMap[record.code]] when [codeMap] has the key
    [record.code] and the message of the input otherwise, and whose code,
    location and source are those of the input; the record and the map it
    is given are values that the function only reads. *)
Theorem translate_message (error_stack : option string)
    (record : GeneralError.t) (codeMap : gmap string string) :
  (forall text, codeMap !! GeneralError.code record = Some text ->
     GeneralError.message (GeneralError.translate error_stack record codeMap)
     = text)
  /\ (codeMap !! GeneralError.code record = None ->
      GeneralError.message (GeneralError.translate error_stack record codeMap)
      = GeneralError.message record)
  /\ GeneralError.code (GeneralError.translate error_stack record codeMap)
     = GeneralError.code record
  /\ GeneralError.location (GeneralError.translate error_stack record codeMap)
     = GeneralError.location record
  /\ GeneralError.source (GeneralError.translate error_stack record codeMap)
     = GeneralError.source record.
Proof.
  unfold GeneralError.translate, GeneralError.new. simpl.
  repeat apply conj; try reflexivity.
  - intros text ->. reflexivity.
  - intros ->. reflexivity.
Qed.

Lemma translate_message_witness :
  ({[ "E_B" := "disque plein" ]} : gmap string string)
    !! GeneralError.code error_b = Some "disque plein"
  /\ GeneralError.translate sample_stack error_b
       {[ "E_B" := "disque plein" ]}
     = GeneralError.mk "E_B" "disque plein" "" "disk".
Proof.
  assert (Hget : ({[ "E_B" := "disque plein" ]} : gmap string string)
                   !! GeneralError.code error_b = Some "disque plein")
    by reflexivity.
  split; [exact Hget|].
  pose proof (proj1 (translate_message sample_stack error_b
                       {[ "E_B" := "disque plein" ]}) _ Hget) as Hmsg.
  unfold GeneralError.translate, GeneralError.new in *. simpl in *.
  now rewrite Hmsg.
Defined.

(** ** Sources *)

Section Sourced.
Variable error_stack : option string.
Variable s : string.
Hypothesis s_not_empty : s <> "".

Lemma convertError_source (error : string + GeneralError.t) :
  GeneralError.source (convertError error_stack error (Some s)) =
  match error with
  | inl _ => s
  | inr e =>
      if decide (GeneralError.source e = "") then s else GeneralError.source e
  end.
Proof.
  destruct error as [text|e]; [reflexivity|].
  rewrite convertError_record. apply back_fill_fields.
Qed.

Lemma convertError_sourced (error : string + GeneralError.t) :
  sourced (convertError error_stack error (Some s)).
Proof.
  unfold sourced. rewrite convertError_source.
  destruct error as [text|e]; [assumption|].
  now destruct (decide _).
Qed.

Lemma back_filled_sourced (errors : list GeneralError.t) :
  Forall sourced (map (back_fill (Some s)) errors).
Proof.
  apply Forall_map, Forall_forall. intros e _.
  now apply back_fill_sourced.
Qed.

Lemma failure_sourced {T : Type} errors es :
  failure error_stack (T:=T) errors (Some s) = FailureResult es ->
  Forall sourced es.
Proof.
  destruct errors as [error|errors]; intros [= <-].
  - repeat constructor. apply convertError_sourced.
  - apply Forall_map, Forall_forall. intros e _. apply convertError_sourced.
Qed.

Lemma wrap_sourced {T : Type} (data : option T) errors es :
  wrap error_stack data errors (Some s) = FailureResult es ->
  Forall sourced es.
Proof.
  unfold wrap.
  destruct errors as [[|e errors]|]; [destruct data| |destruct data];
    try discriminate; try apply failure_sourced.
  all: intros [= <-]; constructor; [|constructor].
  all: unfold sourced, GeneralError.new; simpl; rewrite or_else_default.
  all: now destruct (decide _).
Qed.

End Sourced.

(** C10: when the source argument is a non-empty string, every record of a
    failure returned by [failure], [wrap], [collect], [compose],
    [collectAny] or [composeAny] has a non-empty source: a record that had
    a source keeps it, and a record without one, or made from a string,
    takes the source supplied. *)
Theorem failures_are_sourced (error_stack : option string) (T : Type)
    (s : string) (s_not_empty : s <> "") :
  (forall errors es,
     failure error_stack (T:=T) errors (Some s) = FailureResult es ->
     Forall sourced es)
  /\ (forall (data : option T) errors es,
        wrap error_stack data errors (Some s) = FailureResult es ->
        Forall sourced es)
  /\ (forall (results : list (ResultContainer T)) es,
        collect error_stack results (Some s) = FailureResult es ->
        Forall sourced es)
  /\ (forall (keyed : Keyed (ResultContainer T)) es,
        compose error_stack keyed (Some s) = FailureResult es ->
        Forall sourced es)
  /\ (forall (results : list (ResultContainer T)) es,
        collectAny error_stack results (Some s) = FailureResult es ->
        Forall sourced es)
  /\ (forall (keyed : Keyed (ResultContainer T)) es,
        composeAny error_stack keyed (Some s) = FailureResult es ->
        Forall sourced es)
  /\ (forall error,
        GeneralError.source (convertError error_stack error (Some s)) =
        match error with
        | inl _ => s
        | inr e =>
            if decide (GeneralError.source e = "") then s
            else GeneralError.source e
        end).
Proof.
  repeat apply conj.
  - intros errors es. now apply failure_sourced.
  - intros data errors es. now apply wrap_sourced.
  - intros results es. unfold collect.
    destruct (fold_left _ _ _) as [errors data]. now apply wrap_sourced.
  - intros keyed es. unfold compose.
    destruct (fold_left _ _ _) as [result errors]. now apply wrap_sourced.
  - intros results es. rewrite collectAny_returns.
    destruct (successes results); [|discriminate].
    intros [= <-]. now apply back_filled_sourced.
  - intros keyed es. rewrite composeAny_returns.
    destruct (assign_all _); [|discriminate].
    intros [= <-]. now apply back_filled_sourced.
  - intros error. now apply convertError_source.
Qed.

Lemma failures_are_sourced_witness :
  "api" <> ""
  /\ failure sample_stack (T:=Z) (inr [inl "a"; inr error_b; inr error_c])
       (Some "api")
     = FailureResult
         [GeneralError.mk "" "a" "Error at <anonymous>" "api";
          GeneralError.mk "E_B" "b" "" "disk";
          GeneralError.mk "" "c" "line 3" "api"]
  /\ Forall sourced
       [GeneralError.mk "" "a" "Error at <anonymous>" "api";
        GeneralError.mk "E_B" "b" "" "disk";
        GeneralError.mk "" "c" "line 3" "api"].
Proof.
  assert (Hs : "api" <> "") by discriminate.
  assert (Hrun : failure sample_stack (T:=Z)
                   (inr [inl "a"; inr error_b; inr error_c]) (Some "api")
                 = FailureResult
                     [GeneralError.mk "" "a" "Error at <anonymous>" "api";
                      GeneralError.mk "E_B" "b" "" "disk";
                      GeneralError.mk "" "c" "line 3" "api"])
    by reflexivity.
  split; [exact Hs|]. split; [exact Hrun|].
  exact (proj1 (failures_are_sourced sample_stack Z "api" Hs) _ _ Hrun).
Defined.

(** * Further properties *)

(** ** Numbers as strings *)

Lemma Number_toString_inj (n n' : N) :
  Number_toString n = Number_toString n' -> n = n'.
Proof.
  unfold Number_toString. intros H.
  apply DecimalN.Unsigned.to_uint_inj.
  pose proof (NilEmpty.usu (N.to_uint n)) as Hn.
  pose proof (NilEmpty.usu (N.to_uint n')) as Hn'.
  rewrite H in Hn. congruence.
Qed.

Lemma Number_toString_not_empty (n : N) : Number_toString n <> "".
Proof.
  unfold Number_toString. destruct n as [|p]; [discriminate|].
  pose proof (DecimalPos.Unsigned.to_uint_nonnil p) as Hnil.
  simpl. destruct (Pos.to_uint p); [contradiction | discriminate..].
Qed.

(** ** Sources given twice *)

Lemma back_fill_new (error_stack : option string) (message : string)
    (code location first next : option string) :
  back_fill next
    (GeneralError.new error_stack
       {| GeneralError.partial_message := message;
          GeneralError.partial_code := code;
          GeneralError.partial_location := location;
          GeneralError.partial_source := first |})
  = GeneralError.new error_stack
      {| GeneralError.partial_message := message;
         GeneralError.partial_code := code;
         GeneralError.partial_location := location;
         GeneralError.partial_source := first_source first next |}.
Proof.
  unfold back_fill, GeneralError.new, first_source. simpl.
  destruct first as [[|c s]|]; simpl; reflexivity.
Qed.

Lemma back_fill_twice (first next : option string) (e : GeneralError.t) :
  back_fill next (back_fill first e) = back_fill (first_source first next) e.
Proof.
  unfold back_fill at 2 3.
  destruct (decide (GeneralError.source e = "")) as [Hs|Hs].
  - destruct e as [c m l s]. simpl in *. subst s.
    unfold back_fill, first_source. simpl.
    destruct first as [[|x s]|]; simpl; reflexivity.
  - unfold back_fill. now destruct (decide _).
Qed.

Lemma convertError_twice (stack1 stack2 : option string)
    (e : string + GeneralError.t) (first next : option string) :
  convertError stack2 (inr (convertError stack1 e first)) next
  = convertError stack1 e (first_source first next).
Proof.
  rewrite convertError_record. destruct e as [text|e].
  - apply back_fill_new.
  - rewrite !convertError_record. apply back_fill_twice.
Qed.

(** X3: converting an error a second time keeps the source it took the
    first time: the source supplied first, when it is a non-empty string,
    wins over the one supplied next, and the next one is used only where
    the first left the source empty. So making a failure again from the
    errors of a failure is making it once with the first source that is
    not empty. *)
Theorem failure_twice (stack1 stack2 : option string) (T : Type)
    (errors : (string + GeneralError.t) + list (string + GeneralError.t))
    (first next : option string) :
  (forall e,
     convertError stack2 (inr (convertError stack1 e first)) next
     = convertError stack1 e (first_source first next))
  /\ failure stack2 (T:=T)
       (inr (map inr (errors_of (failure stack1 (T:=T) errors first)))) next
     = FailureResult
         (errors_of (failure stack1 (T:=T) errors (first_source first next)))
  /\ (forall s, s <> "" ->
        failure stack2 (T:=T)
          (inr (map inr (errors_of (failure stack1 (T:=T) errors (Some s)))))
          next
        = FailureResult (errors_of (failure stack1 (T:=T) errors (Some s)))).
Proof.
  assert (Hre : forall fst_ nxt,
             failure stack2 (T:=T)
               (inr (map inr (errors_of (failure stack1 (T:=T) errors fst_))))
               nxt
             = FailureResult
                 (errors_of (failure stack1 (T:=T) errors
                               (first_source fst_ nxt)))).
  { intros fst_ nxt. destruct errors as [e|es]; unfold failure;
      cbn [errors_of map].
    - now rewrite convertError_twice.
    - f_equal. rewrite !map_map. apply map_ext. intros e.
      apply convertError_twice. }
  repeat apply conj.
  - intros e. apply convertError_twice.
  - apply Hre.
  - intros s Hs. rewrite Hre. unfold first_source, or_else.
    apply truthy_true in Hs. now rewrite Hs.
Qed.

Lemma failure_twice_witness :
  "inner" <> ""
  /\ failure sample_stack (T:=Z)
       (inr (map inr
          (errors_of (failure None (T:=Z) (inr [inl "a"; inr error_b])
                        (Some "inner")))))
       (Some "outer")
     = FailureResult
         [GeneralError.mk "" "a" "" "inner"; GeneralError.mk "E_B" "b" "" "disk"].
Proof.
  assert (Hs : "inner" <> "") by discriminate.
  split; [exact Hs|].
  exact (proj2 (proj2 (failure_twice None sample_stack Z
                         (inr [inl "a"; inr error_b]) (Some "inner")
                         (Some "outer"))) "inner" Hs).
Defined.

(** ** [composeAny] *)



(** ** The keyed combinators and the sequence combinators *)




(** ** [collect] and [collectAny] together *)

(** X5: on the same input and source, a failure of [collectAny] that
    carries errors is also what [collect] returns, and a success of
    [collect] that carries data is also what [collectAny] returns; when
    [collect] fails, [collectAny] either fails with the same errors or
    succeeds with the data of the succeeding inputs, of which there is at
    least one. *)
Theorem collect_and_collectAny (error_stack : option string) (T : Type)
    (results : list (ResultContainer T)) (source : option string) :
  (forall es, es <> [] ->
     collectAny error_stack results source = FailureResult es ->
     collect error_stack results source = FailureResult es)
  /\ (forall data, data <> [] ->
        collect error_stack results source = SuccessResult data ->
        collectAny error_stack results source = SuccessResult data)
  /\ (forall es,
        collect error_stack results source = FailureResult es ->
        collectAny error_stack results source = FailureResult es
        \/ (successes results <> []
            /\ collectAny error_stack results source
               = SuccessResult (successes results))).
Proof.
  rewrite collect_returns, collectAny_returns. repeat apply conj.
  - intros es Hne. destruct (successes results); [|discriminate].
    intros [= <-]. destruct (all_errors results); [contradiction|].
    reflexivity.
  - intros data Hne. destruct (all_errors results); [|discriminate].
    intros [= <-]. destruct (successes results); [contradiction|].
    reflexivity.
  - intros es. destruct (all_errors results) eqn:E; [discriminate|].
    intros [= <-]. destruct (successes results) eqn:S; [now left|].
    right. split; [discriminate | reflexivity].
Qed.

Lemma collect_and_collectAny_witness :
  [5%Z; 6%Z] <> []
  /\ collect sample_stack [SuccessResult 5%Z; SuccessResult 6%Z] (Some "api")
     = SuccessResult [5%Z; 6%Z]
  /\ collectAny sample_stack [SuccessResult 5%Z; SuccessResult 6%Z]
       (Some "api")
     = SuccessResult [5%Z; 6%Z].
Proof.
  assert (Hne : [5%Z; 6%Z] <> []) by discriminate.
  assert (Hrun : collect sample_stack [SuccessResult 5%Z; SuccessResult 6%Z]
                   (Some "api") = SuccessResult [5%Z; 6%Z]) by reflexivity.
  split; [exact Hne|]. split; [exact Hrun|].
  exact (proj1 (proj2 (collect_and_collectAny sample_stack Z
                         [SuccessResult 5%Z; SuccessResult 6%Z] (Some "api")))
           _ Hne Hrun).
Defined.

(** ** [wrap] then [unwrap] *)

(** X6: [unwrap] gives back the data that [wrap] was given whenever [wrap]
    was given data and no error; when [wrap] was given errors, [unwrap]
    throws, whatever the data, and the message renders those errors with
    the source given to [wrap], where not empty, before the one given to
    [unwrap]; when [wrap] was given neither, [unwrap] throws as well. *)
Theorem wrap_then_unwrap (stack1 stack2 : option string) (T : Type)
    (data : option T) (errors : option (list (string + GeneralError.t)))
    (source source' : option string) :
  (errors = None \/ errors = Some [] ->
   forall d, data = Some d ->
   unwrap stack2 (wrap stack1 data errors source) source' = Return d)
  /\ (forall es, errors = Some es -> es <> [] ->
      unwrap stack2 (wrap stack1 data errors source) source'
      = Throw (mkError
          (GeneralError.toString
             (inr (map (fun e =>
                          convertError stack1 e (first_source source source'))
                       es)) None)))
  /\ (errors = None \/ errors = Some [] ->
      data = None ->
      exists text,
        unwrap stack2 (wrap stack1 data errors source) source'
        = Throw (mkError text)).
Proof.
  repeat apply conj.
  - intros [-> | ->] d ->; reflexivity.
  - intros es -> Hne. destruct es as [|e es]; [contradiction|].
    unfold wrap, failure, unwrap. do 4 f_equal.
    rewrite map_map. apply map_ext. intros x. apply convertError_twice.
  - intros [-> | ->] ->; eexists; reflexivity.
Qed.

Lemma wrap_then_unwrap_witness :
  (Some ([] : list (string + GeneralError.t)) = None
   \/ Some [] = Some ([] : list (string + GeneralError.t)))
  /\ unwrap sample_stack
       (wrap sample_stack (Some 7%Z) (Some []) (Some "api")) None
     = Return 7%Z.
Proof.
  assert (Hno : Some ([] : list (string + GeneralError.t)) = None
                \/ Some [] = Some ([] : list (string + GeneralError.t)))
    by (right; reflexivity).
  split; [exact Hno|].
  exact (proj1 (wrap_then_unwrap sample_stack sample_stack Z (Some 7%Z)
                  (Some []) (Some "api") None) Hno 7%Z eq_refl).
Defined.

(** ** [GeneralError]: the constructor and [toBag] *)

(** X7: a record made again from its own bag, or given as it is to the
    constructor, is the same record, whatever stack the engine would
    report; and the bag of a new record holds the message that was
    supplied and, for each other field, the value supplied or else its
    default: the empty string for the code and the source, the captured
    stack for the location. *)
Theorem constructor_toBag_round_trip (error_stack : option string)
    (record : GeneralError.t) (data : GeneralError.PartialBag) :
  GeneralError.new error_stack
    (GeneralError.spread (GeneralError.toBag record)) = record
  /\ GeneralError.new error_stack (instance_data record) = record
  /\ GeneralError.toBag (GeneralError.new error_stack data)
     = {| GeneralError.bag_message := GeneralError.partial_message data;
          GeneralError.bag_location :=
            default (GeneralError.getLocation error_stack)
              (GeneralError.partial_location data);
          GeneralError.bag_source :=
            default "" (GeneralError.partial_source data);
          GeneralError.bag_code :=
            default "" (GeneralError.partial_code data) |}
  /\ GeneralError.toBag
       (GeneralError.new error_stack
          (GeneralError.spread (GeneralError.toBag record)))
     = GeneralError.toBag record.
Proof. destruct record as [c m l s]. repeat split. Qed.

(** ** [GeneralError.translate], composed *)

(** X8: translating with one map and then with another is translating
    once with their union, where the map applied last wins on the codes
    both have; translating with the empty map changes nothing; and
    translating twice with the same map is translating once. *)
Theorem translate_composed (stack1 stack2 stack3 : option string)
    (record : GeneralError.t) (first next : gmap string string) :
  GeneralError.translate stack2
    (GeneralError.translate stack1 record first) next
  = GeneralError.translate stack3 record (next ∪ first)
  /\ GeneralError.translate stack1 record ∅ = record
  /\ GeneralError.translate stack2
       (GeneralError.translate stack1 record first) first
     = GeneralError.translate stack1 record first.
Proof.
  destruct record as [c m l s].
  unfold GeneralError.translate, GeneralError.new. simpl.
  repeat apply conj.
  - f_equal. rewrite lookup_union.
    destruct (next !! c), (first !! c); reflexivity.
  - now rewrite lookup_empty.
  - f_equal. now destruct (first !! c).
Qed.

(** ** [GeneralError.toString] on arrays *)

Lemma join_cons (delimiter p : string) (rest : list string) :
  rest <> [] ->
  join delimiter (p :: rest) = p +:+ delimiter +:+ join delimiter rest.
Proof. destruct rest; [contradiction | reflexivity]. Qed.

Lemma join_app (delimiter : string) (xs ys : list string) :
  xs <> [] -> ys <> [] ->
  join delimiter (xs ++ ys)
  = join delimiter xs +:+ delimiter +:+ join delimiter ys.
Proof.
  intros Hxs Hys. induction xs as [|x xs IH]; [contradiction|].
  destruct xs as [|x' xs].
  - simpl app. now rewrite join_cons.
  - change ((x :: x' :: xs) ++ ys) with (x :: ((x' :: xs) ++ ys)).
    rewrite join_cons by discriminate.
    rewrite IH by discriminate.
    rewrite (join_cons delimiter x (x' :: xs)) by discriminate.
    now rewrite !append_assoc.
Qed.

(** X9: [GeneralError.toString] renders an empty array as the empty
    string and an array of one record as that record alone, without any
    delimiter; the rendering of two arrays put end to end, neither being
    empty, is their two renderings with one delimiter in between. *)
Theorem toString_arrays (xs ys : list GeneralError.t)
    (record : GeneralError.t) (delimiter : option string) :
  GeneralError.toString (inr []) delimiter = ""
  /\ GeneralError.toString (inr [record]) delimiter
     = GeneralError.toString (inl record) delimiter
  /\ (xs <> [] -> ys <> [] ->
      GeneralError.toString (inr (xs ++ ys)) delimiter
      = GeneralError.toString (inr xs) delimiter
        +:+ default LF delimiter
        +:+ GeneralError.toString (inr ys) delimiter).
Proof.
  repeat apply conj; [reflexivity | reflexivity |].
  intros Hxs Hys. unfold GeneralError.toString. rewrite map_app.
  apply join_app.
  - now destruct xs.
  - now destruct ys.
Qed.

Lemma toString_arrays_witness :
  [error_a] <> [] /\ [error_b; error_c] <> []
  /\ GeneralError.toString (inr ([error_a] ++ [error_b; error_c])) (Some ", ")
     = "a" +:+ ", " +:+ "[E_B disk] b, [line 3] c".
Proof.
  assert (Hxs : [error_a] <> []) by discriminate.
  assert (Hys : [error_b; error_c] <> []) by discriminate.
  split; [exact Hxs|]. split; [exact Hys|].
  exact (proj2 (proj2 (toString_arrays [error_a] [error_b; error_c] error_a
                         (Some ", "))) Hxs Hys).
Defined.

(** ** Records without a code *)

(** X10: the rendering of a record that has no code does not show its
    source: records that differ only by their source are rendered alike.
    So the message [unwrap] throws for a failure made from strings is the
    same whatever source was given to [failure] and to [unwrap]. *)
Theorem source_not_rendered_without_code (stack1 stack2 : option string)
    (T : Type) :
  (forall message location source source' delimiter,
     GeneralError.toString
       (inl (GeneralError.mk "" message location source)) delimiter
     = GeneralError.toString
         (inl (GeneralError.mk "" message location source')) delimiter)
  /\ (forall (texts : list string) source source',
        unwrap stack2 (T:=T)
          (failure stack1 (inr (map inl texts)) source) source'
        = unwrap stack2 (T:=T)
            (failure stack1 (inr (map inl texts)) None) None).
Proof.
  split; [reflexivity|].
  intros texts source source'. unfold unwrap, failure. do 2 f_equal.
  unfold GeneralError.toString. apply (f_equal (join LF)).
  rewrite !map_map. apply map_ext. intros text.
  rewrite !convertError_twice, !convertError_string. reflexivity.
Qed.

(** ** The factories and [failure] *)

(** X11: giving a source to [failure] for a record that a factory made is
    giving it to the factory, unless the factory was already given a
    non-empty one, which then stays: [failure(f(x, s), s')] holds the
    record [f(x, s or else s')], for each of the five factories; and the
    record [failure] makes of a string has the code, the message and the
    source of the one [fromString] makes, each of the two having for
    location the stack captured where it is made. *)
Theorem factory_then_failure (stack1 stack2 : option string) (T : Type)
    (source source' : option string) :
  (forall response,
     failure stack2 (T:=T)
       (inl (inr (ErrorFactories.fromResponse stack1 response source))) source'
     = FailureResult
         [ErrorFactories.fromResponse stack1 response
            (first_source source source')])
  /\ (forall text,
        failure stack2 (T:=T)
          (inl (inr (ErrorFactories.fromString stack1 text source))) source'
        = FailureResult
            [ErrorFactories.fromString stack1 text
               (first_source source source')])
  /\ (forall error_,
        failure stack2 (T:=T)
          (inl (inr (ErrorFactories.fromJsoncError stack1 error_ source)))
          source'
        = FailureResult
            [ErrorFactories.fromJsoncError stack1 error_
               (first_source source source')])
  /\ (forall (number : Type) (render : number -> string) issue,
        failure stack2 (T:=T)
          (inl (inr (ErrorFactories.fromZodIssue stack1 render issue source)))
          source'
        = FailureResult
            [ErrorFactories.fromZodIssue stack1 render issue
               (first_source source source')])
  /\ (forall error_ record,
        ErrorFactories.fromNativeError stack1 error_ source = Return record ->
        ErrorFactories.fromNativeError stack1 error_
          (first_source source source')
        = Return (back_fill source' record)
        /\ failure stack2 (T:=T) (inl (inr record)) source'
           = FailureResult [back_fill source' record])
  /\ (forall text,
        exists record,
          failure stack2 (T:=T) (inl (inl text)) source
          = FailureResult [record]
          /\ GeneralError.code record
             = GeneralError.code
                 (ErrorFactories.fromString stack1 text source)
          /\ GeneralError.message record
             = GeneralError.message
                 (ErrorFactories.fromString stack1 text source)
          /\ GeneralError.source record
             = GeneralError.source
                 (ErrorFactories.fromString stack1 text source)
          /\ GeneralError.location record = GeneralError.getLocation stack2
          /\ GeneralError.location
               (ErrorFactories.fromString stack1 text source)
             = GeneralError.getLocation stack1).
Proof.
  unfold failure. repeat apply conj.
  - intros response. rewrite convertError_record. f_equal. f_equal.
    apply back_fill_new.
  - intros text. rewrite convertError_record. f_equal. f_equal.
    apply back_fill_new.
  - intros error_. rewrite convertError_record. f_equal. f_equal.
    apply back_fill_new.
  - intros number render issue. rewrite convertError_record.
    f_equal. f_equal. apply back_fill_new.
  - intros error_ record Hrun. rewrite convertError_record.
    split; [|reflexivity].
    destruct error_ as [e|[text|thrown]]; simpl in *;
      try discriminate; injection Hrun as <-; f_equal; symmetry;
      apply back_fill_new.
  - intros text. eexists. repeat split.
Qed.

Lemma factory_then_failure_witness :
  ErrorFactories.fromNativeError sample_stack
    (ErrorFactories.InstanceOfError
       (ErrorFactories.mkNativeError "SyntaxError" "Unexpected token" None))
    None
  = Return (GeneralError.mk "SyntaxError" "Unexpected token"
              "Error at <anonymous>" "")
  /\ failure sample_stack (T:=Z)
       (inl (inr (GeneralError.mk "SyntaxError" "Unexpected token"
                    "Error at <anonymous>" "")))
       (Some "https://example.org")
     = FailureResult
         [GeneralError.mk "SyntaxError" "Unexpected token"
            "Error at <anonymous>" "https://example.org"].
Proof.
  assert (Hrun : ErrorFactories.fromNativeError sample_stack
                   (ErrorFactories.InstanceOfError
                      (ErrorFactories.mkNativeError "SyntaxError"
                         "Unexpected token" None)) None
                 = Return (GeneralError.mk "SyntaxError" "Unexpected token"
                             "Error at <anonymous>" "")) by reflexivity.
  split; [exact Hrun|].
  exact (proj2 (proj1 (proj2 (proj2 (proj2 (proj2
           (factory_then_failure sample_stack sample_stack Z None
              (Some "https://example.org"))))))
           _ _ Hrun)).
Defined.

(** ** [fromResponse] *)

(** X12: the code of the record [fromResponse] makes is the decimal
    numeral of the status, which is never empty and tells the statuses
    apart; so its rendering always starts with the bracket of the code and
    the source, and [translate] with a message for the numeral of one
    status replaces the status text of the responses that have this
    status and of no other. *)
Theorem fromResponse_code (stack1 stack2 : option string)
    (response : ErrorFactories.Response) (source : option string) :
  GeneralError.code (ErrorFactories.fromResponse stack1 response source)
  <> ""
  /\ (forall response',
        GeneralError.code
          (ErrorFactories.fromResponse stack1 response source)
        = GeneralError.code
            (ErrorFactories.fromResponse stack1 response' source)
        <-> ErrorFactories.status response = ErrorFactories.status response')
  /\ GeneralError.toString
       (inl (ErrorFactories.fromResponse stack1 response source)) None
     = "[" +:+ Number_toString (ErrorFactories.status response) +:+ " "
       +:+ default "" source +:+ "] "
       +:+ (if decide (ErrorFactories.url response = "") then ""
            else "[" +:+ ErrorFactories.url response +:+ "] ")
       +:+ ErrorFactories.statusText response
  /\ (forall n text,
        GeneralError.message
          (GeneralError.translate stack2
             (ErrorFactories.fromResponse stack1 response source)
             {[ Number_toString n := text ]})
        = if decide (ErrorFactories.status response = n) then text
          else ErrorFactories.statusText response).
Proof.
  destruct response as [txt st u]. simpl. repeat apply conj.
  - apply Number_toString_not_empty.
  - intros [txt' st' u']. simpl.
    split; [apply Number_toString_inj | now intros ->].
  - unfold GeneralError.toString. simpl.
    pose proof (Number_toString_not_empty st) as Hst.
    apply truthy_true in Hst. rewrite Hst.
    destruct (decide (u = "")) as [->|Hu].
    + rewrite !append_assoc. reflexivity.
    + apply truthy_true in Hu. rewrite Hu. rewrite !append_assoc.
      reflexivity.
  - intros n text. destruct (decide (st = n)) as [->|Hne].
    + now rewrite lookup_singleton_eq.
    + rewrite lookup_singleton_ne; [reflexivity|].
      intros Heq. apply Hne. symmetry. now apply Number_toString_inj.
Qed.

(** ** Locations that are supplied *)


